(** * bower-npm-resolver: the npm wrapper ([src/npm-utils.js]) and the
    download helper, embedded in Rocq.

    The registry replies are JSON-like JavaScript values.  Objects are finite
    maps from property names to values, arrays are lists.  The npm client is
    an external collaborator: it is represented by the callback invocations
    it performs.  Promises are the settled state of a Q deferred. *)

From Stdlib Require Import Ascii.
From stdpp Require Import gmap strings list sorting pretty.

Local Open Scope string_scope.
Set Warnings "-register-all".

(** ** JavaScript values *)

(** JSON-like data as the npm client hands it to its callbacks.  Numbers are
    the integer-valued ones; strings are sequences of code units below 256,
    compared unit by unit as [Array.prototype.sort] does by default. *)
Inductive value : Type :=
  | VUndef
  | VNull
  | VBool (b : bool)
  | VNum (n : Z)
  | VStr (s : string)
  | VArr (l : list value)
  | VObj (o : gmap string value).

(** What a rejected promise carries: a value handed over by npm, or the
    [TypeError] the runtime raises inside a [then] handler. *)
Inductive reason : Type :=
  | Raised (e : value)
  | TypeError.

(** Result of evaluating an expression that may throw. *)
Inductive completion (A : Type) : Type :=
  | Normal (a : A)
  | Throw (r : reason).
Arguments Normal {A} a.
Arguments Throw {A} r.

(** Sequencing: the first throw aborts the rest of the handler. *)
Global Instance completion_ret : MRet completion := λ A a, Normal a.
Global Instance completion_bind : MBind completion := λ A B f c,
  match c with
  | Normal a => f a
  | Throw r => Throw r
  end.

(** [if (v)]: JavaScript truthiness. *)
Definition truthy (v : value) : bool :=
  match v with
  | VUndef | VNull => false
  | VBool b => b
  | VNum n => negb (n =? 0)%Z
  | VStr s => negb (String.eqb s "")
  | VArr _ | VObj _ => true
  end.

(** [Array.isArray(v)]. *)
Definition isArray (v : value) : bool :=
  match v with
  | VArr _ => true
  | _ => false
  end.

(** The index property names ["0"], ["1"], ... of an array or string of
    length [n]. *)
Definition index_keys (n : nat) : list string :=
  (λ i : nat, pretty i) <$> seq 0 n.

(** The index denoted by property name [k], when it is one below [n]. *)
Definition index_of_key (k : string) (n : nat) : option nat :=
  head (filter (λ i : nat, pretty i = k) (seq 0 n)).

Fixpoint chars (s : string) : list value :=
  match s with
  | EmptyString => []
  | String c s' => VStr (String c EmptyString) :: chars s'
  end.

(** [Object.keys(v)]: the own enumerable property names.  The order of an
    object's names is left to the map; every caller sorts them. *)
Definition object_keys (v : value) : completion (list string) :=
  match v with
  | VUndef | VNull => Throw TypeError
  | VBool _ | VNum _ => Normal []
  | VStr s => Normal (index_keys (String.length s))
  | VArr l => Normal (index_keys (length l))
  | VObj o => Normal (elements (dom o))
  end.

(** Property read on a list-like value of elements [l]. *)
Definition get_indexed (l : list value) (k : string) : value :=
  if String.eqb k "length" then VNum (Z.of_nat (length l))
  else match index_of_key k (length l) with
       | Some i => default VUndef (l !! i)
       | None => VUndef
       end.

(** [v[k]]: property read.  Reading from [undefined] or [null] throws; a
    missing property reads as [undefined].  Properties inherited from the
    built-in prototypes are not represented: none of them is named
    ["versions"], ["dist.tarball"] or ["undefined"], and an own property
    hides an inherited one. *)
Definition get (v : value) (k : string) : completion value :=
  match v with
  | VUndef | VNull => Throw TypeError
  | VBool _ | VNum _ => Normal VUndef
  | VStr s => Normal (get_indexed (chars s) k)
  | VArr l => Normal (get_indexed l k)
  | VObj o => Normal (default VUndef (o !! k))
  end.

(** [keys.sort()] with the default comparator. *)
Definition sort_keys (keys : list string) : list string :=
  merge_sort String.le keys.

(** [keys[keys.length - 1]] is a property name or [undefined]; used as a
    property name, [undefined] reads the property called ["undefined"]. *)
Definition key_of (k : option string) : string :=
  default "undefined" k.

(** [getLastKey]. *)
Definition getLastKey (o : value) : completion (option string) :=
  keys ← object_keys o;
  Normal (last (sort_keys keys)).

(** ** Promises *)

(** State of a Q deferred and of the promise it backs. *)
Inductive promise : Type :=
  | Pending
  | Fulfilled (v : value)
  | Rejected (r : reason).

(** [deferred.resolve(v)]: settles a pending deferred, otherwise ignored. *)
Definition resolve (d : promise) (v : value) : promise :=
  match d with
  | Pending => Fulfilled v
  | _ => d
  end.

(** [deferred.reject(r)]. *)
Definition reject (d : promise) (r : reason) : promise :=
  match d with
  | Pending => Rejected r
  | _ => d
  end.

(** How the result of a [then] handler settles the derived promise: a
    returned value fulfils it, a throw rejects it. *)
Definition settle (c : completion value) : promise :=
  match c with
  | Normal w => Fulfilled w
  | Throw r => Rejected r
  end.

(** [promise.then(f)] with a fulfilment handler only: a rejection passes
    through. *)
Definition then_ (p : promise) (f : value → completion value) : promise :=
  match p with
  | Pending => Pending
  | Fulfilled v => settle (f v)
  | Rejected r => Rejected r
  end.

(** ** The npm client *)

(** npm is known by the callback invocations it performs, in order:
    [npm_load] lists the [(err, data)] pairs [npm.load] passes to its
    callback, where [data.config.get] is kept as a function of the setting
    name; [npm_view args silent] lists the pairs [npm.commands.view] passes
    to its callback. *)
Record npm : Type := {
  npm_load : list (value * (string → value));
  npm_view : list string → bool → list (value * value)
}.

(** What a call leaves behind: the promise handed to the caller and the
    arguments of every [npm.commands.view] invocation it made. *)
Record run : Type := {
  outcome : promise;
  view_calls : list (list string)
}.

(** [wrapCallback(deferred)] applied to [(err, data)]. *)
Definition wrapCallback (d : promise) (err data : value) : promise :=
  if truthy err then reject d (Raised err) else resolve d data.

(** The callback [execViewCommand] passes to [npm.load], applied to [err]. *)
Definition on_load (n : npm) (args : list string) (st : run) (err : value) : run :=
  if truthy err then
    {| outcome := reject (outcome st) (Raised err); view_calls := view_calls st |}
  else
    {| outcome := foldl (λ d c, wrapCallback d c.1 c.2) (outcome st)
                    (npm_view n args true);
       view_calls := view_calls st ++ [args] |}.

(** [execViewCommand(args)]. *)
Definition execViewCommand (n : npm) (args : list string) : run :=
  foldl (on_load n args) {| outcome := Pending; view_calls := [] |}
    (npm_load n).*1.

(** [run.then(f)] on the promise of a run. *)
Definition run_then (r : run) (f : value → completion value) : run :=
  {| outcome := then_ (outcome r) f; view_calls := view_calls r |}.

(** [proxy()]. *)
Definition proxy (n : npm) : promise :=
  foldl (λ d c,
      if truthy c.1 then reject d (Raised c.1)
      else resolve d (VObj {[ "proxy" := c.2 "proxy";
                              "https-proxy" := c.2 "https-proxy" ]}))
    Pending (npm_load n).

(** The [then] handler of [releases]. *)
Definition releases_handler (data : value) : completion value :=
  if isArray data then Normal data
  else
    mostRecentVersion ← getLastKey data;
    entry ← get data (key_of mostRecentVersion);
    get entry "versions".

(** [releases(pkg)]. *)
Definition releases (n : npm) (pkg : string) : run :=
  run_then (execViewCommand n [pkg; "versions"]) releases_handler.

(** The [then] handler of [tarball]. *)
Definition tarball_handler (data : value) : completion value :=
  url ← get data "dist.tarball";
  if truthy url then get data "dist.tarball"
  else
    mostRecentVersion ← getLastKey data;
    entry ← get data (key_of mostRecentVersion);
    get entry "dist.tarball".

(** [tarball(pkg, version)]. *)
Definition tarball (n : npm) (pkg version : string) : run :=
  run_then (execViewCommand n [pkg +:+ "@" +:+ version; "dist.tarball"])
    tarball_handler.

(** The test [current['proxy'] || current['https-proxy']] of [findProxy]:
    the second read happens only when the first value is falsy. *)
Definition has_proxy (current : value) : completion bool :=
  p ← get current "proxy";
  if truthy p then Normal true
  else
    s ← get current "https-proxy";
    Normal (truthy s).

(** [findProxy(configList)], on the elements of the array [configList]. *)
Fixpoint findProxy (configList : list value) : completion value :=
  match configList with
  | [] => Normal (VObj ∅)
  | current :: rest =>
      found ← has_proxy current;
      if found : bool then
        p ← get current "proxy";
        s ← get current "https-proxy";
        Normal (VObj {[ "proxy" := p; "https-proxy" := s ]})
      else findProxy rest
  end.

(** ** What npm did *)

(** [npm.load] succeeded and the view command replied with [data]: the
    first callback invocation of each carries a falsy [err]. *)
Inductive view_reply (n : npm) (args : list string) (data : value) : Prop :=
  | ViewReply (e0 : value) (cfg : string → value) rest (e1 : value) rest' :
      npm_load n = (e0, cfg) :: rest →
      truthy e0 = false →
      npm_view n args true = (e1, data) :: rest' →
      truthy e1 = false →
      view_reply n args data.

(** The command failed with error [e]: [npm.load] called back once, either
    with the truthy [err] value [e], or with a falsy one and the view
    command then called back with the truthy [err] value [e] first. *)
Inductive command_failure (n : npm) (args : list string) (e : value) : Prop :=
  | LoadFailure (cfg : string → value) :
      npm_load n = [(e, cfg)] →
      truthy e = true →
      command_failure n args e
  | ViewFailure (e0 : value) (cfg : string → value) (d : value) rest :
      npm_load n = [(e0, cfg)] →
      truthy e0 = false →
      npm_view n args true = (e, d) :: rest →
      truthy e = true →
      command_failure n args e.

(** [k] is the key that sorts last among the keys of [o]. *)
Definition is_last_key (o : gmap string value) (k : string) : Prop :=
  k ∈ dom o ∧ set_Forall (λ k', String.le k' k) (dom o).

(** A configuration object in which neither proxy setting is truthy. *)
Definition lacks_proxy (c : value) : bool :=
  match c with
  | VObj o =>
      negb (truthy (default VUndef (o !! "proxy")))
      && negb (truthy (default VUndef (o !! "https-proxy")))
  | _ => false
  end.

(** A value that is a mapping. *)
Definition is_mapping (c : value) : bool :=
  match c with
  | VObj _ => true
  | _ => false
  end.

(** ** Sample registries *)

Global Instance is_last_key_dec (o : gmap string value) (k : string) :
  Decision (is_last_key o k).
Proof. unfold is_last_key. apply _. Defined.

(** An npm client whose load succeeds once, with no setting configured, and
    whose view command replies once with [data]. *)
Definition npm_replying (data : value) : npm :=
  {| npm_load := [(VNull, λ _, VUndef)];
     npm_view := λ _ _, [(VNull, data)] |}.

(** An npm client whose load succeeds and whose view command fails with
    [e]. *)
Definition npm_view_failing (e : value) : npm :=
  {| npm_load := [(VNull, λ _, VUndef)];
     npm_view := λ _ _, [(e, VUndef)] |}.

(** An npm client whose load fails with [e]. *)
Definition npm_load_failing (e : value) : npm :=
  {| npm_load := [(e, λ _, VUndef)];
     npm_view := λ _ _, [] |}.

(** An npm client configured with the given proxy settings. *)
Definition npm_configured (cfg : string → value) : npm :=
  {| npm_load := [(VNull, cfg)];
     npm_view := λ _ _, [] |}.

Definition bower_versions : value :=
  VArr [VStr "1.0.0"; VStr "1.1.0"; VStr "1.7.7"].

Definition bower_entry : gmap string value :=
  {[ "versions" := bower_versions ]}.

(** The per-version reply of [npm view bower versions]. *)
Definition bower_versions_reply : gmap string value :=
  {[ "1.0.0" := VObj {[ "versions" := VArr [VStr "1.0.0"] ]};
     "1.1.0" := VObj {[ "versions" := VArr [VStr "1.0.0"; VStr "1.1.0"] ]};
     "1.7.7" := VObj bower_entry ]}.

Definition bower_url : value :=
  VStr "http://registry.npmjs.org/bower/-/bower-1.7.7.tgz".

Definition bower_tarball_entry : gmap string value :=
  {[ "dist.tarball" := bower_url ]}.

(** The per-version reply of [npm view bower@1.7.7 dist.tarball]. *)
Definition bower_tarball_reply : gmap string value :=
  {[ "1.7.7" := VObj bower_tarball_entry ]}.

(** A reply whose [dist.tarball] entry is the empty string. *)
Definition empty_tarball_reply : gmap string value :=
  {[ "dist.tarball" := VStr "" ]}.

(** An error object as npm reports it. *)
Definition not_found : value :=
  VObj {[ "code" := VStr "E404" ]}.

(** An npm client that loads but whose view command never calls back. *)
Definition npm_silent : npm :=
  {| npm_load := [(VNull, λ _, VUndef)];
     npm_view := λ _ _, [] |}.


(** An npm client whose load calls back with the error [e] and then once
    more without error. *)
Definition npm_load_failing_twice (e : value) : npm :=
  {| npm_load := [(e, λ _, VUndef); (VNull, λ _, VUndef)];
     npm_view := λ _ _, [(VNull, VArr [])] |}.

(** Configuration objects: none, https only. *)
Definition config_without_proxy : value :=
  VObj {[ "registry" := VStr "https://registry.npmjs.org/" ]}.

Definition config_with_https_proxy : gmap string value :=
  {[ "https-proxy" := VStr "https://proxy:8080" ]}.

(** ** The download helper *)

Module Download.

(** Modelled from the spec: [src/download.js] is not part of the sources;
    a reply of the HTTP client to one GET request is a network failure or
    a status code with a body. *)
Inductive response : Type :=
  | NetworkFailure
  | Response (status : Z) (body : string).

(** Modelled from the spec: [src/download.js] is not part of the sources;
    the collaborators of [fetch] are the HTTP client, the working
    directory against which a relative path is made absolute, the
    existing writable directories and the files on disk. *)
Record world : Type := {
  http_get : string → response;
  cwd : string;
  writable_dirs : gset string;
  files : gmap string string
}.

(** Modelled from the spec: [src/download.js] is not part of the sources;
    the only failure of [fetch] is [DownloadError]. *)
Inductive error : Type :=
  | DownloadError.

(** Modelled from the spec: [src/download.js] is not part of the sources;
    [fetch] resolves with a file path or rejects with an error. *)
Inductive settled : Type :=
  | Resolved (path : string)
  | RejectedWith (e : error).

(** Modelled from the spec: [src/download.js] is not part of the sources;
    a call leaves its promise, the GET requests it issued and the files
    on disk. *)
Record fetched : Type := {
  result : settled;
  requests : list string;
  files_after : gmap string string
}.

(** Modelled from the spec: [src/download.js] is not part of the sources;
    the segments of a path or URL between its ["/"] separators. *)
Fixpoint segments (s : string) : list string :=
  match s with
  | EmptyString => [EmptyString]
  | String c s' =>
      if Ascii.eqb c "/"%char then EmptyString :: segments s'
      else match segments s' with
           | seg :: rest => String c seg :: rest
           | [] => [String c EmptyString]
           end
  end.

(** Modelled from the spec: [src/download.js] is not part of the sources;
    the final path segment, from which the file name is derived. *)
Definition basename (s : string) : string :=
  default EmptyString (last (segments s)).

(** Modelled from the spec: [src/download.js] is not part of the sources;
    a path is absolute when it starts at the root. *)
Definition is_absolute (p : string) : bool :=
  match p with
  | String c _ => Ascii.eqb c "/"%char
  | EmptyString => false
  end.

(** Modelled from the spec: [src/download.js] is not part of the sources;
    the absolute form of a path, relative paths starting at the working
    directory. *)
Definition absolute (w : world) (p : string) : string :=
  if is_absolute p then p else cwd w +:+ "/" +:+ p.

(** Modelled from the spec: [src/download.js] is not part of the sources;
    the success status codes are the 2xx ones. *)
Definition success (status : Z) : bool :=
  ((200 <=? status) && (status <? 300))%Z.

(** Modelled from the spec: [src/download.js] is not part of the sources;
    [fetch(url, destinationDir)] derives the file name from the URL's
    final path segment, issues one GET request, writes the body to the
    file of that name inside [destinationDir] and resolves with its
    absolute path; a network failure, a non-success status or a failed
    write rejects with [DownloadError]. *)
Definition fetch (w : world) (url destinationDir : string) : fetched :=
  let dir := absolute w destinationDir in
  let path := dir +:+ "/" +:+ basename url in
  let failed := {| result := RejectedWith DownloadError;
                   requests := [url];
                   files_after := files w |} in
  match http_get w url with
  | NetworkFailure => failed
  | Response status body =>
      if success status then
        if decide (dir ∈ writable_dirs w) then
          {| result := Resolved path;
             requests := [url];
             files_after := <[path := body]> (files w) |}
        else failed
      else failed
  end.

(** Modelled from the spec: [src/download.js] is not part of the sources;
    the ways a download fails: the request fails at the network level, the
    server replies with a non-success status, or the destination directory
    is missing or unwritable. *)
Inductive download_failure (w : world) (url destinationDir : string) : Prop :=
  | NetworkFails :
      http_get w url = NetworkFailure →
      download_failure w url destinationDir
  | StatusFails (status : Z) (body : string) :
      http_get w url = Response status body →
      success status = false →
      download_failure w url destinationDir
  | WriteFails :
      absolute w destinationDir ∉ writable_dirs w →
      download_failure w url destinationDir.

End Download.

(** ** Sample downloads *)

(** The URL of the test ['should download file']. *)
Definition bower_tgz : string :=
  "http://registry.npmjs.org/bower/-/bower-1.7.7.tgz".

(** A server answering every request with [reply], and a temporary
    directory that exists. *)
Definition serving (reply : Download.response) : Download.world :=
  {| Download.http_get := λ _, reply;
     Download.cwd := "/home/user";
     Download.writable_dirs := {[ "/tmp/tmp-42" ]};
     Download.files := ∅ |}.

(** * Properties *)

Example getLastKey_versions :
  getLastKey (VObj {[ "1.1.0" := VNull; "1.7.7" := VNull; "1.0.0" := VNull ]})
  = Normal (Some "1.7.7").
Proof. vm_compute. reflexivity. Qed.

Example getLastKey_array :
  getLastKey (VArr (replicate 11 VNull)) = Normal (Some "9").
Proof. vm_compute. reflexivity. Qed.

(** ** The last key of a sorted key list *)

Section last_key.

Lemma StronglySorted_last_max (l : list string) (x : string) :
  StronglySorted String.le l → last l = Some x →
  ∀ y, y ∈ l → String.le y x.
Proof.
  induction 1 as [|a l Hs IH Hall]; intros Hlast y Hy; [by inversion Hy|].
  destruct l as [|b l].
  - simpl in Hlast. apply list_elem_of_singleton in Hy. by simplify_eq.
  - rewrite last_cons_cons in Hlast.
    apply elem_of_cons in Hy as [->|Hy]; [|by apply IH].
    rewrite Forall_forall in Hall. apply Hall.
    by apply last_Some_elem_of.
Qed.

Lemma sort_keys_elem_of (ks : list string) (k : string) :
  k ∈ sort_keys ks ↔ k ∈ ks.
Proof. unfold sort_keys. by rewrite merge_sort_Permutation. Qed.

(** After [keys.sort()], the last element is the greatest key. *)
Lemma last_sort_keys_max (ks : list string) (k : string) :
  k ∈ ks → (∀ k', k' ∈ ks → String.le k' k) →
  last (sort_keys ks) = Some k.
Proof.
  intros Hk Hmax.
  destruct (last (sort_keys ks)) as [x|] eqn:Hlast.
  - f_equal. apply (anti_symm String.le).
    + apply Hmax, sort_keys_elem_of. by apply last_Some_elem_of.
    + eapply StronglySorted_last_max; [|done|by apply sort_keys_elem_of].
      apply StronglySorted_merge_sort; apply _.
  - apply last_None in Hlast. apply sort_keys_elem_of in Hk.
    rewrite Hlast in Hk. by inversion Hk.
Qed.

Lemma last_sort_keys_nil : last (sort_keys []) = None.
Proof. reflexivity. Qed.

(** [getLastKey] on a mapping returns its greatest key. *)
Lemma getLastKey_obj_max (o : gmap string value) (k : string) :
  is_last_key o k → getLastKey (VObj o) = Normal (Some k).
Proof.
  intros [Hk Hmax]. unfold getLastKey. simpl. f_equal.
  apply last_sort_keys_max.
  - by apply elem_of_elements.
  - intros k' Hk'. by apply Hmax, elem_of_elements.
Qed.

Lemma getLastKey_obj_empty : getLastKey (VObj ∅) = Normal None.
Proof. reflexivity. Qed.

End last_key.

(** ** Settling a deferred *)

Section deferred.

Context (n : npm) (args : list string).

(** Once settled, a deferred ignores every further callback. *)
Lemma view_callbacks_settled (d : promise) (cs : list (value * value)) :
  d ≠ Pending → foldl (λ d c, wrapCallback d c.1 c.2) d cs = d.
Proof.
  intros Hd. induction cs as [|[e x] cs IH]; [done|]. simpl.
  replace (wrapCallback d e x) with d; [done|].
  unfold wrapCallback. by destruct (truthy e), d.
Qed.

Lemma on_load_settled (st : run) (err : value) :
  outcome st ≠ Pending → outcome (on_load n args st err) = outcome st.
Proof.
  intros Hd. unfold on_load. destruct (truthy err); simpl.
  - by destruct (outcome st).
  - by apply view_callbacks_settled.
Qed.

Lemma load_callbacks_settled (st : run) (errs : list value) :
  outcome st ≠ Pending →
  outcome (foldl (on_load n args) st errs) = outcome st.
Proof.
  revert st. induction errs as [|e errs IH]; intros st Hd; [done|]. simpl.
  rewrite IH; rewrite on_load_settled; done.
Qed.

(** The view command is invoked at most once per callback of [npm.load]. *)
Lemma load_callbacks_view_calls (st : run) (errs : list value) :
  (length (view_calls (foldl (on_load n args) st errs))
   ≤ length (view_calls st) + length errs)%nat.
Proof.
  revert st. induction errs as [|e errs IH]; intros st; simpl; [lia|].
  etrans; [apply IH|]. unfold on_load.
  destruct (truthy e); simpl; rewrite ?length_app; simpl; lia.
Qed.

Lemma execViewCommand_view_calls :
  (length (view_calls (execViewCommand n args)) ≤ length (npm_load n))%nat.
Proof.
  unfold execViewCommand. etrans; [apply load_callbacks_view_calls|].
  simpl. by rewrite length_fmap.
Qed.

(** A successful load followed by a reply fulfils the promise with the
    reply. *)
Lemma execViewCommand_reply (data : value) :
  view_reply n args data → outcome (execViewCommand n args) = Fulfilled data.
Proof.
  intros [e0 cfg rest e1 rest' Hload He0 Hview He1].
  unfold execViewCommand. rewrite Hload. simpl.
  assert (outcome (on_load n args {| outcome := Pending; view_calls := [] |} e0)
          = Fulfilled data) as Hfirst.
  { unfold on_load. rewrite He0, Hview. simpl.
    unfold wrapCallback at 2. rewrite He1. simpl.
    by apply view_callbacks_settled. }
  rewrite load_callbacks_settled; rewrite Hfirst; done.
Qed.

(** A failed load or a failed view command rejects the promise with the
    error npm reported. *)
Lemma execViewCommand_failure (e : value) :
  command_failure n args e →
  outcome (execViewCommand n args) = Rejected (Raised e).
Proof.
  intros [cfg Hload He|e0 cfg d rest Hload He0 Hview He];
    unfold execViewCommand; rewrite Hload; simpl; unfold on_load.
  - by rewrite He.
  - rewrite He0, Hview. simpl. unfold wrapCallback at 2. rewrite He. simpl.
    by apply view_callbacks_settled.
Qed.

End deferred.

Lemma releases_outcome (n : npm) (pkg : string) (data : value) :
  view_reply n [pkg; "versions"] data →
  outcome (releases n pkg) = settle (releases_handler data).
Proof.
  intros Hr. unfold releases. simpl. by rewrite (execViewCommand_reply _ _ data).
Qed.

Lemma tarball_outcome (n : npm) (pkg version : string) (data : value) :
  view_reply n [pkg +:+ "@" +:+ version; "dist.tarball"] data →
  outcome (tarball n pkg version) = settle (tarball_handler data).
Proof.
  intros Hr. unfold tarball. simpl. by rewrite (execViewCommand_reply _ _ data).
Qed.

(** The unwrapping both handlers perform on a mapping: read the entry at
    the last key, then the field of that entry. *)
Lemma unwrap_last_key (o : gmap string value) (k : string) (entry : value)
    (field : string) :
  is_last_key o k → o !! k = Some entry →
  (mostRecentVersion ← getLastKey (VObj o);
   e ← get (VObj o) (key_of mostRecentVersion);
   get e field) = get entry field.
Proof.
  intros Hlast Hk. rewrite (getLastKey_obj_max _ _ Hlast). simpl.
  by rewrite Hk.
Qed.

Lemma is_last_key_lookup (o : gmap string value) (k : string) :
  is_last_key o k → is_Some (o !! k).
Proof. intros [Hk _]. by apply elem_of_dom. Qed.

(** ** [releases] *)

(** C1: when the view command replies to [pkg, "versions"] with a mapping
    (not an array) keyed by version strings, [releases(pkg)] resolves with
    the [versions] field of the entry whose key sorts last among the
    mapping's keys. *)
Theorem releases_last_key (n : npm) (pkg : string) (o : gmap string value)
    (k : string) (entry : gmap string value) (versions : value) :
  view_reply n [pkg; "versions"] (VObj o) →
  is_last_key o k →
  o !! k = Some (VObj entry) →
  entry !! "versions" = Some versions →
  outcome (releases n pkg) = Fulfilled versions.
Proof.
  intros Hreply Hlast Hk Hv.
  rewrite (releases_outcome _ _ _ Hreply).
  unfold releases_handler. simpl isArray. cbv iota.
  rewrite (unwrap_last_key _ _ _ _ Hlast Hk). simpl. by rewrite Hv.
Qed.

Lemma releases_last_key_witness :
  is_last_key bower_versions_reply "1.7.7" ∧
  outcome (releases (npm_replying (VObj bower_versions_reply)) "bower")
  = Fulfilled bower_versions.
Proof.
  assert (is_last_key bower_versions_reply "1.7.7") as Hlast.
  { apply (bool_decide_unpack _). vm_compute. exact I. }
  split; [exact Hlast|].
  apply (releases_last_key _ _ bower_versions_reply "1.7.7" bower_entry).
  - by eapply ViewReply.
  - exact Hlast.
  - reflexivity.
  - reflexivity.
Defined.

(** C3: when the view command replies to [pkg, "versions"] with an array,
    [releases(pkg)] resolves with that very array. *)
Theorem releases_array (n : npm) (pkg : string) (l : list value) :
  view_reply n [pkg; "versions"] (VArr l) →
  outcome (releases n pkg) = Fulfilled (VArr l).
Proof. intros Hreply. by rewrite (releases_outcome _ _ _ Hreply). Qed.

Lemma releases_array_witness :
  outcome (releases (npm_replying bower_versions) "bower")
  = Fulfilled bower_versions.
Proof.
  apply (releases_array _ "bower" [VStr "1.0.0"; VStr "1.1.0"; VStr "1.7.7"]).
  by eapply ViewReply.
Defined.

(** ** [tarball] *)

(** C2: when the reply to [pkg@version, "dist.tarball"] has no
    [dist.tarball] entry of its own but is a mapping keyed by version
    strings, [tarball(pkg, version)] resolves with the [dist.tarball] value
    of the entry whose key sorts last among the mapping's keys. *)
Theorem tarball_last_key (n : npm) (pkg version : string)
    (o : gmap string value) (k : string) (entry : gmap string value)
    (url : value) :
  view_reply n [pkg +:+ "@" +:+ version; "dist.tarball"] (VObj o) →
  o !! "dist.tarball" = None →
  is_last_key o k →
  o !! k = Some (VObj entry) →
  entry !! "dist.tarball" = Some url →
  outcome (tarball n pkg version) = Fulfilled url.
Proof.
  intros Hreply Hflat Hlast Hk Hurl.
  rewrite (tarball_outcome _ _ _ _ Hreply).
  unfold tarball_handler. rewrite (unwrap_last_key _ _ _ _ Hlast Hk).
  simpl. rewrite Hflat. simpl. by rewrite Hurl.
Qed.

Lemma tarball_last_key_witness :
  outcome (tarball (npm_replying (VObj bower_tarball_reply)) "bower" "1.7.7")
  = Fulfilled bower_url.
Proof.
  apply (tarball_last_key _ _ _ bower_tarball_reply "1.7.7"
           bower_tarball_entry).
  - by eapply ViewReply.
  - reflexivity.
  - apply (bool_decide_unpack _). vm_compute. exact I.
  - reflexivity.
  - reflexivity.
Defined.

(** C4, as the code has it: when the reply is a mapping with a
    [dist.tarball] entry of its own whose value is truthy (a non-empty URL
    string, say), [tarball(pkg, version)] resolves with exactly that
    value. *)
Theorem tarball_flat (n : npm) (pkg version : string)
    (o : gmap string value) (url : value) :
  view_reply n [pkg +:+ "@" +:+ version; "dist.tarball"] (VObj o) →
  o !! "dist.tarball" = Some url →
  truthy url = true →
  outcome (tarball n pkg version) = Fulfilled url.
Proof.
  intros Hreply Hflat Htrue.
  rewrite (tarball_outcome _ _ _ _ Hreply).
  unfold tarball_handler. simpl. rewrite Hflat. simpl. by rewrite Htrue.
Qed.

Lemma tarball_flat_witness :
  outcome (tarball (npm_replying (VObj bower_tarball_entry)) "bower" "1.7.7")
  = Fulfilled bower_url.
Proof.
  apply (tarball_flat _ _ _ bower_tarball_entry).
  - by eapply ViewReply.
  - reflexivity.
  - reflexivity.
Defined.

(** C4, as stated, fails: the reply [{ "dist.tarball": "" }] contains the
    key, yet the promise resolves with [undefined] and not with the value
    of the key. *)
Lemma falsy_dist_tarball_counterexample :
  view_reply (npm_replying (VObj empty_tarball_reply))
    ["bower" +:+ "@" +:+ "1.7.7"; "dist.tarball"] (VObj empty_tarball_reply) ∧
  empty_tarball_reply !! "dist.tarball" = Some (VStr "") ∧
  outcome (tarball (npm_replying (VObj empty_tarball_reply)) "bower" "1.7.7")
  = Fulfilled VUndef ∧
  outcome (tarball (npm_replying (VObj empty_tarball_reply)) "bower" "1.7.7")
  ≠ Fulfilled (VStr "").
Proof.
  assert (outcome (tarball (npm_replying (VObj empty_tarball_reply))
                     "bower" "1.7.7") = Fulfilled VUndef) as Hout.
  { vm_compute. reflexivity. }
  split; [by eapply ViewReply|]. split; [reflexivity|].
  split; [exact Hout|]. rewrite Hout. discriminate.
Qed.

(** C9: the flat branch of [tarball] is chosen by the truthiness of the
    reply's [dist.tarball] value.  When the reply maps [dist.tarball] to a
    falsy value, the promise settles as the nested read
    [data[lastKey]['dist.tarball']] does, for the key that sorts last. *)
Theorem tarball_falsy_falls_through (n : npm) (pkg version : string)
    (o : gmap string value) (v : value) (k : string) (entry : value) :
  view_reply n [pkg +:+ "@" +:+ version; "dist.tarball"] (VObj o) →
  o !! "dist.tarball" = Some v →
  truthy v = false →
  is_last_key o k →
  o !! k = Some entry →
  outcome (tarball n pkg version) = settle (get entry "dist.tarball").
Proof.
  intros Hreply Hflat Hfalse Hlast Hk.
  rewrite (tarball_outcome _ _ _ _ Hreply).
  unfold tarball_handler. rewrite (unwrap_last_key _ _ _ _ Hlast Hk).
  change (get (VObj o) "dist.tarball")
    with (Normal (default VUndef (o !! "dist.tarball"))).
  rewrite Hflat. simpl. by rewrite Hfalse.
Qed.

Lemma tarball_falsy_falls_through_witness :
  outcome (tarball (npm_replying (VObj empty_tarball_reply)) "bower" "1.7.7")
  = Fulfilled VUndef.
Proof.
  apply (tarball_falsy_falls_through _ _ _ empty_tarball_reply (VStr "")
           "dist.tarball" (VStr "")).
  - by eapply ViewReply.
  - reflexivity.
  - reflexivity.
  - apply (bool_decide_unpack _). vm_compute. exact I.
  - reflexivity.
Defined.

(** ** Empty replies *)

(** C10: on a reply that is an empty mapping, [getLastKey] returns
    [undefined], the read of the entry's field throws, and both
    [releases] and [tarball] reject instead of resolving. *)
Theorem empty_reply_rejects (n : npm) (pkg version : string) :
  getLastKey (VObj ∅) = Normal None ∧
  get (VObj ∅) (key_of None) = Normal VUndef ∧
  (view_reply n [pkg; "versions"] (VObj ∅) →
   outcome (releases n pkg) = Rejected TypeError) ∧
  (view_reply n [pkg +:+ "@" +:+ version; "dist.tarball"] (VObj ∅) →
   outcome (tarball n pkg version) = Rejected TypeError).
Proof.
  split; [reflexivity|]. split; [reflexivity|]. split; intros Hreply.
  - by rewrite (releases_outcome _ _ _ Hreply).
  - by rewrite (tarball_outcome _ _ _ _ Hreply).
Qed.

Lemma empty_reply_rejects_witness :
  outcome (releases (npm_replying (VObj ∅)) "bower") = Rejected TypeError ∧
  outcome (tarball (npm_replying (VObj ∅)) "bower" "1.7.7")
  = Rejected TypeError.
Proof.
  destruct (empty_reply_rejects (npm_replying (VObj ∅)) "bower" "1.7.7")
    as (_ & _ & Hreleases & Htarball).
  split; [apply Hreleases|apply Htarball]; by eapply ViewReply.
Defined.

(** ** [proxy] *)

(** C5: once npm has loaded, [proxy()] resolves with a mapping whose keys
    are exactly [proxy] and [https-proxy], holding the values the
    configuration gives for these settings: both [undefined] when neither
    is configured. *)
Theorem proxy_settings (n : npm) (e0 : value) (cfg : string → value)
    (rest : list (value * (string → value))) :
  npm_load n = (e0, cfg) :: rest →
  truthy e0 = false →
  let o : gmap string value :=
    {[ "proxy" := cfg "proxy"; "https-proxy" := cfg "https-proxy" ]} in
  proxy n = Fulfilled (VObj o) ∧
  dom o = {[ "proxy"; "https-proxy" ]} ∧
  o !! "proxy" = Some (cfg "proxy") ∧
  o !! "https-proxy" = Some (cfg "https-proxy") ∧
  (cfg "proxy" = VUndef → cfg "https-proxy" = VUndef →
   proxy n = Fulfilled (VObj {[ "proxy" := VUndef; "https-proxy" := VUndef ]})).
Proof.
  intros Hload He0 o.
  assert (proxy n = Fulfilled (VObj o)) as Hproxy.
  { unfold proxy. rewrite Hload. simpl. rewrite He0. simpl.
    clear Hload. induction rest as [|[e c] rest IH]; [done|].
    simpl. by destruct (truthy e). }
  split; [exact Hproxy|]. split; [|split; [|split]].
  - unfold o. rewrite dom_insert_L, dom_singleton_L. set_solver.
  - unfold o. by rewrite lookup_insert_eq.
  - unfold o. rewrite lookup_insert_ne by done. by rewrite lookup_singleton_eq.
  - intros Hp Hs. rewrite Hproxy. unfold o. by rewrite Hp, Hs.
Qed.

Lemma proxy_settings_witness :
  proxy (npm_configured (λ _, VUndef))
  = Fulfilled (VObj {[ "proxy" := VUndef; "https-proxy" := VUndef ]}) ∧
  proxy (npm_configured (λ k, VStr ("http://proxy:8080/" +:+ k)))
  = Fulfilled (VObj {[ "proxy" := VStr "http://proxy:8080/proxy";
                       "https-proxy" := VStr "http://proxy:8080/https-proxy" ]}).
Proof.
  split.
  - apply (proxy_settings (npm_configured (λ _, VUndef)) VNull (λ _, VUndef) []);
      reflexivity.
  - apply (proxy_settings
             (npm_configured (λ k, VStr ("http://proxy:8080/" +:+ k)))
             VNull (λ k, VStr ("http://proxy:8080/" +:+ k)) []);
      reflexivity.
Defined.

(** ** Failures of npm *)

Lemma command_failure_load_once (n : npm) (args : list string) (e : value) :
  command_failure n args e → length (npm_load n) = 1%nat.
Proof. by intros [cfg -> _|e0 cfg d rest -> _ _ _]. Qed.

Lemma command_failure_run (n : npm) (args : list string) (e : value)
    (f : value → completion value) :
  command_failure n args e →
  outcome (run_then (execViewCommand n args) f) = Rejected (Raised e) ∧
  (length (view_calls (run_then (execViewCommand n args) f)) ≤ 1)%nat.
Proof.
  intros Hfail. split; simpl.
  - by rewrite (execViewCommand_failure _ _ _ Hfail).
  - rewrite <- (command_failure_load_once _ _ _ Hfail).
    apply execViewCommand_view_calls.
Qed.

(** C6: when npm fails to load, or loads and the view command fails, with
    error [e], the promise of [releases] and of [tarball] is rejected with
    that same [e]: it is not turned into a resolved value, and the view
    command is issued at most once. *)
Theorem command_failure_propagates (n : npm) (pkg version : string) (e : value) :
  (command_failure n [pkg; "versions"] e →
   outcome (releases n pkg) = Rejected (Raised e) ∧
   (length (view_calls (releases n pkg)) ≤ 1)%nat) ∧
  (command_failure n [pkg +:+ "@" +:+ version; "dist.tarball"] e →
   outcome (tarball n pkg version) = Rejected (Raised e) ∧
   (length (view_calls (tarball n pkg version)) ≤ 1)%nat).
Proof. split; intros Hfail; by apply command_failure_run. Qed.

Lemma command_failure_propagates_witness :
  outcome (releases (npm_view_failing not_found) "bower")
  = Rejected (Raised not_found) ∧
  outcome (tarball (npm_view_failing not_found) "bower" "1.7.7")
  = Rejected (Raised not_found) ∧
  outcome (releases (npm_load_failing not_found) "bower")
  = Rejected (Raised not_found) ∧
  outcome (tarball (npm_load_failing not_found) "bower" "1.7.7")
  = Rejected (Raised not_found).
Proof.
  destruct (command_failure_propagates (npm_view_failing not_found)
              "bower" "1.7.7" not_found) as [Hr Ht].
  destruct (command_failure_propagates (npm_load_failing not_found)
              "bower" "1.7.7" not_found) as [Hr' Ht'].
  split; [apply Hr; by eapply ViewFailure|].
  split; [apply Ht; by eapply ViewFailure|].
  split; [apply Hr'; by eapply LoadFailure|].
  apply Ht'; by eapply LoadFailure.
Defined.

(** ** [fetch] *)

Section paths.

Import Download.

Lemma segments_nonempty (s : string) : segments s ≠ [].
Proof.
  induction s as [|c s IH]; simpl; [done|].
  destruct (Ascii.eqb c "/"); [done|]. by destruct (segments s).
Qed.

Lemma append_cons (c : ascii) (a b : string) :
  String c a +:+ b = String c (a +:+ b).
Proof. reflexivity. Qed.

(** Joining two paths with a separator joins their segments. *)
Lemma segments_join (a b : string) :
  segments (a +:+ "/" +:+ b) = (segments a ++ segments b)%list.
Proof.
  induction a as [|c a IH]; [done|].
  rewrite append_cons. simpl. rewrite IH.
  destruct (Ascii.eqb c "/"); [done|].
  pose proof (segments_nonempty a). by destruct (segments a).
Qed.

(** A segment contains no separator. *)
Lemma segments_segment (s seg : string) :
  seg ∈ segments s → segments seg = [seg].
Proof.
  revert seg. induction s as [|c s IH]; intros seg; simpl.
  - by intros ->%list_elem_of_singleton.
  - destruct (Ascii.eqb c "/") eqn:Hc.
    + intros [->|Hin]%elem_of_cons; [done|by apply IH].
    + pose proof (segments_nonempty s).
      destruct (segments s) as [|seg0 rest]; [done|].
      intros [->|Hin]%elem_of_cons.
      * simpl. rewrite Hc. rewrite (IH seg0); [done|by left].
      * apply IH. by right.
Qed.

Lemma basename_elem_of (s : string) : basename s ∈ segments s.
Proof.
  unfold basename. pose proof (segments_nonempty s) as Hne.
  destruct (last (segments s)) as [x|] eqn:Hlast.
  - by apply last_Some_elem_of.
  - by apply last_None in Hlast.
Qed.

Lemma segments_basename (s : string) : segments (basename s) = [basename s].
Proof. eapply segments_segment, basename_elem_of. Qed.

Lemma basename_join (a b : string) :
  basename (a +:+ "/" +:+ b) = basename b.
Proof.
  unfold basename. rewrite segments_join, last_app.
  pose proof (segments_nonempty b) as Hne.
  destruct (last (segments b)) eqn:Hlast; [done|].
  by apply last_None in Hlast.
Qed.

Lemma basename_basename (s : string) : basename (basename s) = basename s.
Proof. unfold basename at 1. by rewrite segments_basename. Qed.

Lemma is_absolute_append (a b : string) :
  is_absolute a = true → is_absolute (a +:+ b) = true.
Proof. by destruct a. Qed.

Lemma absolute_is_absolute (w : world) (p : string) :
  is_absolute (cwd w) = true → is_absolute (absolute w p) = true.
Proof.
  intros Hcwd. unfold absolute. destruct (is_absolute p) eqn:Hp; [done|].
  by apply is_absolute_append.
Qed.

End paths.

(** C7: when the request succeeds and the destination directory exists and
    is writable, [fetch(url, destinationDir)] resolves with an absolute
    path made of the directory's segments followed by one more, the final
    segment of the URL, and the body is in the file of that path. *)
Theorem fetch_resolves_in_directory (w : Download.world)
    (url destinationDir : string) (status : Z) (body : string) :
  Download.http_get w url = Download.Response status body →
  Download.success status = true →
  Download.absolute w destinationDir ∈ Download.writable_dirs w →
  Download.is_absolute (Download.cwd w) = true →
  let dir := Download.absolute w destinationDir in
  let path := dir +:+ "/" +:+ Download.basename url in
  Download.result (Download.fetch w url destinationDir)
  = Download.Resolved path ∧
  Download.is_absolute path = true ∧
  Download.segments path
  = (Download.segments dir ++ [Download.basename url])%list ∧
  Download.basename path = Download.basename url ∧
  Download.files_after (Download.fetch w url destinationDir) !! path
  = Some body.
Proof.
  intros Hget Hok Hdir Hcwd dir path.
  unfold Download.fetch. fold dir. fold path. rewrite Hget, Hok.
  destruct (decide (dir ∈ Download.writable_dirs w)) as [_|Hn]; [|done].
  simpl. split; [done|]. split; [|split; [|split]].
  - by apply is_absolute_append, absolute_is_absolute.
  - unfold path. by rewrite segments_join, segments_basename.
  - unfold path. by rewrite basename_join, basename_basename.
  - by rewrite lookup_insert_eq.
Qed.

Lemma fetch_resolves_in_directory_witness :
  Download.result
    (Download.fetch (serving (Download.Response 200 "tgz")) bower_tgz
       "/tmp/tmp-42")
  = Download.Resolved "/tmp/tmp-42/bower-1.7.7.tgz" ∧
  Download.basename "/tmp/tmp-42/bower-1.7.7.tgz" = "bower-1.7.7.tgz" ∧
  Download.basename bower_tgz = "bower-1.7.7.tgz".
Proof.
  destruct (fetch_resolves_in_directory (serving (Download.Response 200 "tgz"))
              bower_tgz "/tmp/tmp-42" 200 "tgz") as (Hres & _ & _ & Hbase & _).
  - reflexivity.
  - reflexivity.
  - apply (bool_decide_unpack _). vm_compute. exact I.
  - reflexivity.
  - split; [exact Hres|]. split; [exact Hbase|]. reflexivity.
Defined.

(** C8: when the request fails at the network level, the server replies
    with a non-success status, or the destination directory is missing or
    unwritable, [fetch] rejects with [DownloadError] after its single
    request. *)
Theorem fetch_failure_rejects (w : Download.world)
    (url destinationDir : string) :
  Download.download_failure w url destinationDir →
  Download.result (Download.fetch w url destinationDir)
  = Download.RejectedWith Download.DownloadError ∧
  Download.requests (Download.fetch w url destinationDir) = [url].
Proof.
  intros [Hnet|status body Hget Hbad|Hdir]; unfold Download.fetch.
  - by rewrite Hnet.
  - by rewrite Hget, Hbad.
  - destruct (Download.http_get w url) as [|status body]; [done|].
    destruct (Download.success status); [|done].
    by destruct (decide _).
Qed.

Lemma fetch_failure_rejects_witness :
  Download.result
    (Download.fetch (serving (Download.Response 404 "")) bower_tgz
       "/tmp/tmp-42")
  = Download.RejectedWith Download.DownloadError ∧
  Download.result
    (Download.fetch (serving Download.NetworkFailure) bower_tgz "/tmp/tmp-42")
  = Download.RejectedWith Download.DownloadError ∧
  Download.result
    (Download.fetch (serving (Download.Response 200 "tgz")) bower_tgz
       "/tmp/missing")
  = Download.RejectedWith Download.DownloadError.
Proof.
  split; [|split].
  - apply (fetch_failure_rejects (serving (Download.Response 404 ""))).
    by eapply Download.StatusFails.
  - apply (fetch_failure_rejects (serving Download.NetworkFailure)).
    by apply Download.NetworkFails.
  - apply (fetch_failure_rejects (serving (Download.Response 200 "tgz"))).
    apply Download.WriteFails.
    apply (bool_decide_unpack _). vm_compute. exact I.
Defined.

(** * Further properties of the npm wrapper *)

(** ** [getLastKey] on mappings *)

(** X1: on a mapping, [getLastKey] returns [k] exactly when [k] is an own
    key that no other key exceeds in string order. *)
Theorem getLastKey_obj_iff (o : gmap string value) (k : string) :
  getLastKey (VObj o) = Normal (Some k) ↔ is_last_key o k.
Proof.
  split; [|apply getLastKey_obj_max].
  unfold getLastKey. simpl. intros [= Hlast].
  assert (k ∈ dom o) as Hk.
  { apply elem_of_elements, sort_keys_elem_of. by apply last_Some_elem_of. }
  split; [exact Hk|]. intros k' Hk'.
  eapply StronglySorted_last_max; [|exact Hlast|].
  - apply StronglySorted_merge_sort; apply _.
  - by apply sort_keys_elem_of, elem_of_elements.
Qed.

(** X2: on a mapping, [getLastKey] returns [undefined] exactly when the
    mapping has no key at all. *)
Theorem getLastKey_obj_undefined_iff (o : gmap string value) :
  getLastKey (VObj o) = Normal None ↔ o = ∅.
Proof.
  split; [|by intros ->].
  unfold getLastKey. simpl. intros [= Hlast].
  apply last_None in Hlast.
  apply dom_empty_iff_L, set_eq. intros k. split; [|set_solver].
  intros Hk%elem_of_elements%sort_keys_elem_of.
  rewrite Hlast in Hk. by inversion Hk.
Qed.

(** ** Replies that do not have the documented shape *)

Lemma releases_unwrap (n : npm) (pkg : string) (o : gmap string value)
    (k : string) (entry : value) :
  view_reply n [pkg; "versions"] (VObj o) →
  is_last_key o k →
  o !! k = Some entry →
  outcome (releases n pkg) = settle (get entry "versions").
Proof.
  intros Hreply Hlast Hk. rewrite (releases_outcome _ _ _ Hreply).
  unfold releases_handler. simpl isArray. cbv iota.
  by rewrite (unwrap_last_key _ _ _ _ Hlast Hk).
Qed.

(** X3: when the entry at the last key is a mapping without a [versions]
    field, [releases] does not fail: it resolves with [undefined]. *)
Theorem releases_missing_versions (n : npm) (pkg : string)
    (o : gmap string value) (k : string) (entry : gmap string value) :
  view_reply n [pkg; "versions"] (VObj o) →
  is_last_key o k →
  o !! k = Some (VObj entry) →
  entry !! "versions" = None →
  outcome (releases n pkg) = Fulfilled VUndef.
Proof.
  intros Hreply Hlast Hk Hv.
  rewrite (releases_unwrap _ _ _ _ _ Hreply Hlast Hk). simpl. by rewrite Hv.
Qed.

Lemma releases_missing_versions_witness :
  outcome (releases (npm_replying (VObj bower_tarball_reply)) "bower")
  = Fulfilled VUndef.
Proof.
  apply (releases_missing_versions _ _ bower_tarball_reply "1.7.7"
           bower_tarball_entry).
  - by eapply ViewReply.
  - apply (bool_decide_unpack _). vm_compute. exact I.
  - reflexivity.
  - reflexivity.
Defined.

(** X4: when the entry at the last key is [null] or [undefined],
    [releases] rejects with the [TypeError] of the field read. *)
Theorem releases_null_entry (n : npm) (pkg : string)
    (o : gmap string value) (k : string) (entry : value) :
  view_reply n [pkg; "versions"] (VObj o) →
  is_last_key o k →
  o !! k = Some entry →
  entry = VNull ∨ entry = VUndef →
  outcome (releases n pkg) = Rejected TypeError.
Proof.
  intros Hreply Hlast Hk Hentry.
  rewrite (releases_unwrap _ _ _ _ _ Hreply Hlast Hk).
  by destruct Hentry as [-> | ->].
Qed.

Lemma releases_null_entry_witness :
  outcome (releases (npm_replying (VObj {[ "1.7.7" := VNull ]})) "bower")
  = Rejected TypeError.
Proof.
  apply (releases_null_entry _ _ {[ "1.7.7" := VNull ]} "1.7.7" VNull).
  - by eapply ViewReply.
  - apply (bool_decide_unpack _). vm_compute. exact I.
  - reflexivity.
  - by left.
Defined.

Lemma index_keys_nil (m : nat) : index_keys m = [] → m = 0%nat.
Proof. by destruct m. Qed.

(** A value without own keys reads as [undefined] at the two names the
    handlers use, unless reading from it throws. *)
Lemma keyless_get (data : value) (k : string) :
  object_keys data = Normal [] →
  String.eqb k "length" = false →
  get data k = Normal VUndef.
Proof.
  intros Hkeys Hk. destruct data as [| |b|z|s|l|o]; simpl in *; try done.
  - injection Hkeys as Hnil. apply index_keys_nil in Hnil.
    destruct s; [|done]. unfold get_indexed. simpl. by rewrite Hk.
  - injection Hkeys as Hnil. apply index_keys_nil in Hnil.
    destruct l; [|done]. unfold get_indexed. simpl. by rewrite Hk.
  - injection Hkeys as Hnil. apply elements_empty_inv in Hnil.
    apply leibniz_equiv in Hnil. apply dom_empty_iff_L in Hnil.
    by rewrite Hnil.
Qed.

(** X5: a reply without any own key (a number, a boolean, an empty string,
    an empty mapping; for [tarball] also an empty array) and a reply that
    is [null] or [undefined] make the promise reject with [TypeError]. *)
Theorem keyless_reply_rejects (n : npm) (pkg version : string) (data : value) :
  object_keys data = Normal [] ∨ object_keys data = Throw TypeError →
  (isArray data = false →
   view_reply n [pkg; "versions"] data →
   outcome (releases n pkg) = Rejected TypeError) ∧
  (view_reply n [pkg +:+ "@" +:+ version; "dist.tarball"] data →
   outcome (tarball n pkg version) = Rejected TypeError).
Proof.
  intros Hkeys. split.
  - intros Harr Hreply. rewrite (releases_outcome _ _ _ Hreply).
    unfold releases_handler, getLastKey. rewrite Harr.
    destruct Hkeys as [Hkeys|Hkeys]; rewrite Hkeys; [|done].
    simpl. by rewrite (keyless_get _ _ Hkeys).
  - intros Hreply. rewrite (tarball_outcome _ _ _ _ Hreply).
    unfold tarball_handler, getLastKey.
    destruct Hkeys as [Hkeys|Hkeys].
    + rewrite !(keyless_get _ "dist.tarball" Hkeys) by done.
      rewrite Hkeys. simpl. by rewrite (keyless_get _ _ Hkeys).
    + by destruct data.
Qed.

Lemma keyless_reply_rejects_witness :
  outcome (releases (npm_replying (VNum 404)) "bower") = Rejected TypeError ∧
  outcome (tarball (npm_replying VNull) "bower" "1.7.7") = Rejected TypeError.
Proof.
  split.
  - apply (keyless_reply_rejects _ "bower" "1.7.7" (VNum 404));
      [by left|reflexivity|by eapply ViewReply].
  - apply (keyless_reply_rejects _ "bower" "1.7.7" VNull);
      [by right|by eapply ViewReply].
Defined.

(** ** The documented reply shapes *)

Lemma is_last_key_singleton (k : string) (e : value) :
  is_last_key {[ k := e ]} k.
Proof.
  unfold is_last_key. rewrite dom_singleton_L. split; [set_solver|].
  intros k' ->%elem_of_singleton. done.
Qed.

(** X6: for a reply of the shape given in the documentation of
    [releases], [{ v: { versions: vs } }], the promise resolves with [vs],
    whatever the key [v] is. *)
Theorem releases_single_version (n : npm) (pkg k : string) (vs : value) :
  view_reply n [pkg; "versions"] (VObj {[ k := VObj {[ "versions" := vs ]} ]}) →
  outcome (releases n pkg) = Fulfilled vs.
Proof.
  intros Hreply.
  rewrite (releases_unwrap _ _ _ k (VObj {[ "versions" := vs ]}) Hreply).
  - simpl. by rewrite lookup_singleton_eq.
  - apply is_last_key_singleton.
  - by rewrite lookup_singleton_eq.
Qed.

Lemma releases_single_version_witness :
  outcome (releases (npm_replying (VObj {[ "1.7.7" := VObj bower_entry ]}))
             "bower")
  = Fulfilled bower_versions.
Proof.
  apply (releases_single_version _ "bower" "1.7.7" bower_versions).
  by eapply ViewReply.
Defined.

(** X7: for a reply of the shape given in the documentation of [tarball],
    [{ v: { 'dist.tarball': url } }], the promise resolves with [url],
    provided the key [v] is not itself ["dist.tarball"]. *)
Theorem tarball_single_version (n : npm) (pkg version k : string) (url : value) :
  k ≠ "dist.tarball" →
  view_reply n [pkg +:+ "@" +:+ version; "dist.tarball"]
    (VObj {[ k := VObj {[ "dist.tarball" := url ]} ]}) →
  outcome (tarball n pkg version) = Fulfilled url.
Proof.
  intros Hne Hreply. rewrite (tarball_outcome _ _ _ _ Hreply).
  unfold tarball_handler.
  rewrite (unwrap_last_key _ k (VObj {[ "dist.tarball" := url ]}));
    [|apply is_last_key_singleton|by rewrite lookup_singleton_eq].
  simpl. rewrite lookup_singleton_ne by done. simpl.
  by rewrite lookup_singleton_eq.
Qed.

Lemma tarball_single_version_witness :
  outcome (tarball (npm_replying (VObj bower_tarball_reply)) "bower" "1.7.7")
  = Fulfilled bower_url.
Proof.
  apply (tarball_single_version _ "bower" "1.7.7" "1.7.7" bower_url).
  - done.
  - by eapply ViewReply.
Defined.

Lemma ltb_le (k1 k2 : string) : String.ltb k1 k2 = true → String.le k1 k2.
Proof.
  unfold String.ltb, String.le, String.leb.
  by destruct (String.compare k1 k2).
Qed.

Lemma ltb_ne (k1 k2 : string) : String.ltb k1 k2 = true → k1 ≠ k2.
Proof.
  intros Hlt ->. unfold String.ltb in Hlt.
  pose proof (String.compare_antisym k2 k2) as Hanti.
  by destruct (String.compare k2 k2).
Qed.

(** X8: of two version keys the one that is greater in string order wins,
    also when it is the older release: [releases] resolves with the
    [versions] field found under the greater key. *)
Theorem releases_greater_key (n : npm) (pkg k1 k2 : string) (e1 vs : value) :
  String.ltb k1 k2 = true →
  view_reply n [pkg; "versions"]
    (VObj {[ k1 := e1; k2 := VObj {[ "versions" := vs ]} ]}) →
  outcome (releases n pkg) = Fulfilled vs.
Proof.
  intros Hlt Hreply.
  rewrite (releases_unwrap _ _ _ k2 (VObj {[ "versions" := vs ]}) Hreply).
  - simpl. by rewrite lookup_singleton_eq.
  - unfold is_last_key. rewrite dom_insert_L, dom_singleton_L.
    split; [set_solver|].
    intros k' [->%elem_of_singleton| ->%elem_of_singleton]%elem_of_union;
      [by apply ltb_le|done].
  - rewrite lookup_insert_ne by (by apply ltb_ne).
    by rewrite lookup_singleton_eq.
Qed.

Lemma releases_greater_key_witness :
  outcome (releases
             (npm_replying
                (VObj {[ "10.0.0" := VObj {[ "versions" := VArr [VStr "10.0.0"] ]};
                         "2.0.0" := VObj {[ "versions" := VArr [VStr "2.0.0"] ]} ]}))
             "bower")
  = Fulfilled (VArr [VStr "2.0.0"]).
Proof.
  apply (releases_greater_key _ "bower" "10.0.0" "2.0.0"
           (VObj {[ "versions" := VArr [VStr "10.0.0"] ]})
           (VArr [VStr "2.0.0"])).
  - reflexivity.
  - by eapply ViewReply.
Defined.

(** ** How [execViewCommand] drives npm *)

Lemma load_callbacks_view_calls_eq (n : npm) (args : list string) (st : run)
    (errs : list value) :
  view_calls (foldl (on_load n args) st errs)
  = (view_calls st
     ++ ((λ _, args) <$> filter (λ e, truthy e = false) errs))%list.
Proof.
  revert st. induction errs as [|e errs IH]; intros st; simpl.
  - by rewrite app_nil_r.
  - rewrite IH. unfold on_load. destruct (truthy e) eqn:He.
    + rewrite filter_cons_False; [done|]. simpl. by rewrite He.
    + rewrite filter_cons_True by done. simpl. by rewrite <- app_assoc.
Qed.

(** X9: the view command is invoked once for every callback of [npm.load]
    that reports no error, each time with the same arguments, and never
    for a callback that reports an error. *)
Theorem execViewCommand_view_calls_eq (n : npm) (args : list string) :
  view_calls (execViewCommand n args)
  = (λ _, args) <$> filter (λ e, truthy e = false) (npm_load n).*1.
Proof. unfold execViewCommand. by rewrite load_callbacks_view_calls_eq. Qed.



(** X11: when the first callback of [npm.load] reports an error, the
    promise is rejected with it, whatever npm does afterwards. *)
Theorem first_load_error_wins (n : npm) (args : list string)
    (e : value) (cfg : string → value) rest :
  npm_load n = (e, cfg) :: rest →
  truthy e = true →
  outcome (execViewCommand n args) = Rejected (Raised e).
Proof.
  intros Hload He. unfold execViewCommand. rewrite Hload. simpl.
  assert (outcome (on_load n args {| outcome := Pending; view_calls := [] |} e)
          = Rejected (Raised e)) as Hfirst.
  { unfold on_load. by rewrite He. }
  rewrite load_callbacks_settled; rewrite Hfirst; done.
Qed.

Lemma first_load_error_wins_witness :
  outcome (execViewCommand (npm_load_failing_twice not_found)
             ["bower"; "versions"])
  = Rejected (Raised not_found).
Proof.
  apply (first_load_error_wins (npm_load_failing_twice not_found)
           ["bower"; "versions"] not_found (λ _, VUndef)
           [(VNull, λ _, VUndef)]); reflexivity.
Defined.

(** X12: there is no timeout.  When npm loads without error but the view
    command never invokes its callback, the promises of [releases] and
    [tarball] stay pending. *)
Theorem silent_view_stays_pending (n : npm) (pkg version : string) :
  Forall (λ c, truthy c.1 = false) (npm_load n) →
  (∀ args, npm_view n args true = []) →
  outcome (releases n pkg) = Pending ∧
  outcome (tarball n pkg version) = Pending.
Proof.
  intros Hload Hview.
  assert (∀ args, outcome (execViewCommand n args) = Pending) as Hpending.
  { intros args. unfold execViewCommand.
    assert (∀ st, outcome st = Pending →
              outcome (foldl (on_load n args) st (npm_load n).*1) = Pending)
      as Hfold; [|by apply Hfold].
    induction Hload as [|[e c] cs He _ IH]; intros st Hst; [done|].
    simpl. apply IH. unfold on_load. simpl in He. by rewrite He, Hview. }
  unfold releases, tarball. simpl. by rewrite !Hpending.
Qed.

Lemma silent_view_stays_pending_witness :
  outcome (releases npm_silent "bower") = Pending ∧
  outcome (tarball npm_silent "bower" "1.7.7") = Pending.
Proof.
  apply (silent_view_stays_pending npm_silent "bower" "1.7.7").
  - by repeat constructor.
  - reflexivity.
Defined.

(** X13: when the first callback of [npm.load] reports an error, [proxy]
    rejects with that error. *)
Theorem proxy_load_failure (n : npm) (e : value) (cfg : string → value) rest :
  npm_load n = (e, cfg) :: rest →
  truthy e = true →
  proxy n = Rejected (Raised e).
Proof.
  intros Hload He. unfold proxy. rewrite Hload. simpl. rewrite He. simpl.
  clear Hload. induction rest as [|[e' c] rest IH]; [done|].
  simpl. by destruct (truthy e').
Qed.

Lemma proxy_load_failure_witness :
  proxy (npm_load_failing not_found) = Rejected (Raised not_found).
Proof.
  apply (proxy_load_failure (npm_load_failing not_found) not_found
           (λ _, VUndef) []); reflexivity.
Defined.

(** ** [findProxy] *)

Section find_proxy.

Implicit Types (o : gmap string value) (c : value) (l pre post : list value).

Lemma has_proxy_obj o :
  has_proxy (VObj o)
  = Normal (truthy (default VUndef (o !! "proxy"))
            || truthy (default VUndef (o !! "https-proxy"))).
Proof.
  unfold has_proxy. simpl.
  by destruct (truthy (default VUndef (o !! "proxy"))).
Qed.

Lemma has_proxy_lacks c : lacks_proxy c = true → has_proxy c = Normal false.
Proof.
  destruct c as [| |b|z|s|l|o]; try done. simpl.
  intros [Hp Hs]%andb_true_iff. rewrite has_proxy_obj.
  apply negb_true_iff in Hp, Hs. by rewrite Hp, Hs.
Qed.

(** The loop passes over the configurations that have no proxy setting. *)
Lemma findProxy_skip pre l :
  Forall (λ c, lacks_proxy c = true) pre →
  findProxy (pre ++ l) = findProxy l.
Proof.
  induction 1 as [|c pre Hc _ IH]; [done|].
  simpl. by rewrite (has_proxy_lacks _ Hc).
Qed.

Lemma findProxy_found o l :
  truthy (default VUndef (o !! "proxy")) = true
  ∨ truthy (default VUndef (o !! "https-proxy")) = true →
  findProxy (VObj o :: l)
  = Normal (VObj {[ "proxy" := default VUndef (o !! "proxy");
                    "https-proxy" := default VUndef (o !! "https-proxy") ]}).
Proof.
  intros Hfound. simpl findProxy. rewrite has_proxy_obj.
  replace (truthy (default VUndef (o !! "proxy"))
           || truthy (default VUndef (o !! "https-proxy"))) with true; [done|].
  symmetry. apply orb_true_iff. by destruct Hfound; [left|right].
Qed.

End find_proxy.

(** X14: when no configuration of the list has a truthy [proxy] or
    [https-proxy] setting, [findProxy] returns the empty object: neither
    key is present in the result. *)
Theorem findProxy_none (l : list value) :
  Forall (λ c, lacks_proxy c = true) l →
  findProxy l = Normal (VObj ∅).
Proof.
  intros Hl. rewrite <- (app_nil_r l). by rewrite findProxy_skip.
Qed.

Lemma findProxy_none_witness :
  findProxy [config_without_proxy; VObj ∅] = Normal (VObj ∅).
Proof.
  apply (findProxy_none [config_without_proxy; VObj ∅]).
  by repeat constructor.
Defined.

(** X15: [findProxy] returns the settings of the first configuration in
    which [proxy] or [https-proxy] is truthy.  The result carries both
    keys, the unset one with the value [undefined], and configurations
    further down the list are not consulted. *)
Theorem findProxy_first (pre post : list value) (o : gmap string value) :
  Forall (λ c, lacks_proxy c = true) pre →
  truthy (default VUndef (o !! "proxy")) = true
  ∨ truthy (default VUndef (o !! "https-proxy")) = true →
  findProxy (pre ++ VObj o :: post)
  = Normal (VObj {[ "proxy" := default VUndef (o !! "proxy");
                    "https-proxy" := default VUndef (o !! "https-proxy") ]}).
Proof.
  intros Hpre Hfound. rewrite (findProxy_skip _ _ Hpre).
  by apply findProxy_found.
Qed.

Lemma findProxy_first_witness :
  findProxy [config_without_proxy; VObj config_with_https_proxy; VNull]
  = Normal (VObj {[ "proxy" := VUndef;
                    "https-proxy" := VStr "https://proxy:8080" ]}).
Proof.
  apply (findProxy_first [config_without_proxy] [VNull]
           config_with_https_proxy).
  - by repeat constructor.
  - by right.
Defined.

(** X16: a [null] or [undefined] element met before any configuration
    with a proxy setting makes [findProxy] throw a [TypeError]. *)
Theorem findProxy_null_entry (pre post : list value) (c : value) :
  Forall (λ c, lacks_proxy c = true) pre →
  c = VNull ∨ c = VUndef →
  findProxy (pre ++ c :: post) = Throw TypeError.
Proof.
  intros Hpre Hc. rewrite (findProxy_skip _ _ Hpre).
  by destruct Hc as [-> | ->].
Qed.

Lemma findProxy_null_entry_witness :
  findProxy [config_without_proxy; VNull; VObj config_with_https_proxy]
  = Throw TypeError.
Proof.
  apply (findProxy_null_entry [config_without_proxy]
           [VObj config_with_https_proxy] VNull).
  - by repeat constructor.
  - by left.
Defined.

(** X17: on a list of mappings [findProxy] does not throw.  Its result is
    the empty object, or an object whose keys are exactly [proxy] and
    [https-proxy] and in which at least one of the two values is truthy. *)
Theorem findProxy_result (l : list value) :
  Forall (λ c, is_mapping c = true) l →
  ∃ r : gmap string value,
    findProxy l = Normal (VObj r) ∧
    (r = ∅ ∨
     dom r = {[ "proxy"; "https-proxy" ]} ∧
     (truthy (default VUndef (r !! "proxy")) = true
      ∨ truthy (default VUndef (r !! "https-proxy")) = true)).
Proof.
  induction 1 as [|c l Hc _ IH]; [exists ∅; by split; [|left]|].
  destruct c as [| |b|z|s|l'|o]; try done.
  destruct (truthy (default VUndef (o !! "proxy"))) eqn:Hp;
    [|destruct (truthy (default VUndef (o !! "https-proxy"))) eqn:Hs].
  - eexists. split; [apply findProxy_found; by left|]. right. split.
    + rewrite dom_insert_L, dom_singleton_L. set_solver.
    + left. by rewrite lookup_insert_eq.
  - eexists. split; [apply findProxy_found; by right|]. right. split.
    + rewrite dom_insert_L, dom_singleton_L. set_solver.
    + right. rewrite lookup_insert_ne by done. by rewrite lookup_singleton_eq.
  - destruct IH as (r & Hr & Hshape). exists r. split; [|done].
    change (findProxy (VObj o :: l)) with (findProxy ([VObj o] ++ l)).
    rewrite findProxy_skip; [done|].
    constructor; [|done]. simpl. by rewrite Hp, Hs.
Qed.

Lemma findProxy_result_witness :
  ∃ r : gmap string value,
    findProxy [config_without_proxy; VObj config_with_https_proxy]
    = Normal (VObj r) ∧
    (r = ∅ ∨
     dom r = {[ "proxy"; "https-proxy" ]} ∧
     (truthy (default VUndef (r !! "proxy")) = true
      ∨ truthy (default VUndef (r !! "https-proxy")) = true)).
Proof.
  apply (findProxy_result [config_without_proxy; VObj config_with_https_proxy]).
  by repeat constructor.
Defined.

(** ** The commands sent to npm *)

Lemma view_calls_load_once (n : npm) (args : list string) (e0 : value)
    (cfg : string → value) :
  npm_load n = [(e0, cfg)] →
  view_calls (execViewCommand n args)
  = if truthy e0 then [] else [args].
Proof.
  intros Hload. unfold execViewCommand. rewrite Hload. simpl.
  unfold on_load. by destruct (truthy e0).
Qed.

(** X18: after a successful load, [releases(pkg)] issues exactly one view
    command, for [pkg, "versions"], and [tarball(pkg, version)] exactly
    one, for [pkg@version, "dist.tarball"]. *)
Theorem view_command_arguments (n : npm) (pkg version : string) (e0 : value)
    (cfg : string → value) :
  npm_load n = [(e0, cfg)] →
  truthy e0 = false →
  view_calls (releases n pkg) = [[pkg; "versions"]] ∧
  view_calls (tarball n pkg version)
  = [[pkg +:+ "@" +:+ version; "dist.tarball"]].
Proof.
  intros Hload He0. unfold releases, tarball. simpl.
  rewrite !(view_calls_load_once _ _ _ _ Hload). by rewrite He0.
Qed.

Lemma view_command_arguments_witness :
  view_calls (releases (npm_replying bower_versions) "bower")
  = [["bower"; "versions"]] ∧
  view_calls (tarball (npm_replying bower_versions) "bower" "1.7.7")
  = [["bower@1.7.7"; "dist.tarball"]].
Proof.
  apply (view_command_arguments (npm_replying bower_versions) "bower" "1.7.7"
           VNull (λ _, VUndef)); reflexivity.
Defined.

(** X19: when the load fails, neither [releases] nor [tarball] issues a
    view command. *)
Theorem load_failure_no_view (n : npm) (pkg version : string) (e : value)
    (cfg : string → value) :
  npm_load n = [(e, cfg)] →
  truthy e = true →
  view_calls (releases n pkg) = [] ∧
  view_calls (tarball n pkg version) = [].
Proof.
  intros Hload He. unfold releases, tarball. simpl.
  rewrite !(view_calls_load_once _ _ _ _ Hload). by rewrite He.
Qed.

Lemma load_failure_no_view_witness :
  view_calls (releases (npm_load_failing not_found) "bower") = [] ∧
  view_calls (tarball (npm_load_failing not_found) "bower" "1.7.7") = [].
Proof.
  apply (load_failure_no_view (npm_load_failing not_found) "bower" "1.7.7"
           not_found (λ _, VUndef)); reflexivity.
Defined.
